(** * Objects tasks: [Rectangle] and the CSS selector builder

    A shallow embedding of [src/task/08-objects-tasks.js].

    - JavaScript numbers are IEEE 754 binary64 values: [PrimFloat.float].
    - The values handed to the selector builder are strings; a string is
      truthy exactly when it is not empty, an array length exactly when the
      array is not empty.
    - A [Selector] object has the single field [cache]; the object is
      identified with that bag.  Its methods read and mutate [this.cache]
      and may throw: they live in a state-and-exception monad over the bag,
      in which a thrown error leaves the bag as it stands at the [throw].
    - A [CombineSelector] holds two selector objects and the combinator. *)

From Stdlib Require Import String Ascii List Bool Arith ZArith Lia PrimFloat Floats.
Import ListNotations.
Local Open Scope string_scope.

(* ===================================================================== *)
(** ** Rectangle *)

Module RectangleTask.

Record object := { width : float; height : float }.

(** [function Rectangle(width, height)] *)
Definition Rectangle (width height : float) : object :=
  {| width := width; height := height |}.

(** [Rectangle.prototype.getArea] *)
Definition getArea (this : object) : float :=
  (this.(width) * this.(height))%float.

End RectangleTask.

(* ===================================================================== *)
(** ** JavaScript truthiness and errors *)

(** [if (s)] on a string. *)
Definition truthy (s : string) : bool :=
  match s with
  | EmptyString => false
  | String _ _ => true
  end.

(** [if (a.length)] on an array. *)
Definition has_length {A : Type} (a : list A) : bool :=
  match a with
  | [] => false
  | _ :: _ => true
  end.

(** [new Error(message)] *)
Inductive exn : Type := Error (message : string).

Definition DuplicateKindError : exn :=
  Error "Element, id and pseudo-element should not occur more then one time inside the selector".

Definition OrderError : exn :=
  Error "Selector parts should be arranged in the following order: element, id, class, attribute, pseudo-class, pseudo-element".

(* ===================================================================== *)
(** ** The bag of a simple selector *)

Module Cache.

Record t := make {
  element : string;
  id : string;
  className : list string;
  attribute : list string;
  pseudoClass : list string;
  pseudoElement : string
}.

(** The literal the constructor starts from. *)
Definition empty : t :=
  {| element := ""; id := ""; className := []; attribute := [];
     pseudoClass := []; pseudoElement := "" |}.

(** [this.cache.element = v] and its siblings. *)
Definition set_element (v : string) (c : t) : t :=
  make v c.(id) c.(className) c.(attribute) c.(pseudoClass) c.(pseudoElement).
Definition set_id (v : string) (c : t) : t :=
  make c.(element) v c.(className) c.(attribute) c.(pseudoClass) c.(pseudoElement).
Definition set_className (v : list string) (c : t) : t :=
  make c.(element) c.(id) v c.(attribute) c.(pseudoClass) c.(pseudoElement).
Definition set_attribute (v : list string) (c : t) : t :=
  make c.(element) c.(id) c.(className) v c.(pseudoClass) c.(pseudoElement).
Definition set_pseudoClass (v : list string) (c : t) : t :=
  make c.(element) c.(id) c.(className) c.(attribute) v c.(pseudoElement).
Definition set_pseudoElement (v : string) (c : t) : t :=
  make c.(element) c.(id) c.(className) c.(attribute) c.(pseudoClass) v.

End Cache.

(* ===================================================================== *)
(** ** State and exceptions *)

Inductive outcome (A : Type) : Type :=
| Return (a : A)
| Throw (e : exn).
Arguments Return {A} a.
Arguments Throw {A} e.

(** A method body: from the bag before the call to the outcome and the bag
    after it. *)
Definition M (A : Type) : Type := Cache.t -> outcome A * Cache.t.

Definition ret {A : Type} (a : A) : M A := fun c => (Return a, c).

Definition bind {A B : Type} (m : M A) (k : A -> M B) : M B :=
  fun c =>
    match m c with
    | (Return a, c') => k a c'
    | (Throw e, c') => (Throw e, c')
    end.

Definition throw {A : Type} (e : exn) : M A := fun c => (Throw e, c).
Definition get : M Cache.t := fun c => (Return c, c).
Definition modify (f : Cache.t -> Cache.t) : M unit := fun c => (Return tt, f c).

(** [if (b) { throw e; }] *)
Definition throw_if (b : bool) (e : exn) : M unit :=
  if b then throw e else ret tt.

Declare Scope js_scope.
Delimit Scope js_scope with js.
Notation "x <- m ;; k" := (bind m (fun x => k))
  (at level 61, m at next level, right associativity) : js_scope.
Notation "m ;; k" := (bind m (fun _ => k))
  (at level 61, right associativity) : js_scope.
Local Open Scope js_scope.

(* ===================================================================== *)
(** ** Selector *)

Module Selector.

(** [function Selector(type, value)]: the bag literal, then the slot named
    [type] is an array exactly for the three repeatable kinds.  A [type]
    outside the six keys would add a property that nothing reads. *)
Definition new (type value : string) : Cache.t :=
  let cache := Cache.empty in
  if type =? "className" then Cache.set_className [value] cache
  else if type =? "attribute" then Cache.set_attribute [value] cache
  else if type =? "pseudoClass" then Cache.set_pseudoClass [value] cache
  else if type =? "element" then Cache.set_element value cache
  else if type =? "id" then Cache.set_id value cache
  else if type =? "pseudoElement" then Cache.set_pseudoElement value cache
  else cache.

(** [Selector.prototype.stringify] *)
Definition stringify : M string :=
  cache <- get ;;
  let result := cache.(Cache.element) in
  let result :=
    if truthy cache.(Cache.id) then result ++ ("#" ++ cache.(Cache.id))
    else result in
  let result :=
    result ++ String.concat "" (map (fun className => "." ++ className) cache.(Cache.className)) in
  let result :=
    result ++ String.concat "" (map (fun attribute => "[" ++ attribute ++ "]") cache.(Cache.attribute)) in
  let result :=
    result ++ String.concat "" (map (fun pseudoClass => ":" ++ pseudoClass) cache.(Cache.pseudoClass)) in
  let result :=
    if truthy cache.(Cache.pseudoElement)
    then result ++ ("::" ++ cache.(Cache.pseudoElement))
    else result in
  ret result.

(** [Selector.prototype.element]: declared without a parameter, it
    throws on both paths. *)
Definition element : M unit :=
  cache <- get ;;
  throw_if (truthy cache.(Cache.element)) DuplicateKindError ;;
  throw OrderError.

(** [Selector.prototype.id] *)
Definition id (value : string) : M unit :=
  cache <- get ;;
  throw_if (truthy cache.(Cache.id)) DuplicateKindError ;;
  throw_if (has_length cache.(Cache.className)
            || has_length cache.(Cache.attribute)
            || has_length cache.(Cache.pseudoClass)
            || truthy cache.(Cache.pseudoElement)) OrderError ;;
  modify (Cache.set_id value) ;;
  ret tt.

(** [Selector.prototype.class] *)
Definition class (value : string) : M unit :=
  cache <- get ;;
  throw_if (has_length cache.(Cache.attribute)
            || has_length cache.(Cache.pseudoClass)
            || truthy cache.(Cache.pseudoElement)) OrderError ;;
  modify (fun c => Cache.set_className (c.(Cache.className) ++ [value]) c) ;;
  ret tt.

(** [Selector.prototype.attr] *)
Definition attr (value : string) : M unit :=
  cache <- get ;;
  throw_if (has_length cache.(Cache.pseudoClass)
            || truthy cache.(Cache.pseudoElement)) OrderError ;;
  modify (fun c => Cache.set_attribute (c.(Cache.attribute) ++ [value]) c) ;;
  ret tt.

(** [Selector.prototype.pseudoClass] *)
Definition pseudoClass (value : string) : M unit :=
  cache <- get ;;
  throw_if (truthy cache.(Cache.pseudoElement)) OrderError ;;
  modify (fun c => Cache.set_pseudoClass (c.(Cache.pseudoClass) ++ [value]) c) ;;
  ret tt.

(** [Selector.prototype.pseudoElement] *)
Definition pseudoElement (value : string) : M unit :=
  cache <- get ;;
  throw_if (truthy cache.(Cache.pseudoElement)) DuplicateKindError ;;
  modify (Cache.set_pseudoElement value) ;;
  ret tt.

End Selector.

(* ===================================================================== *)
(** ** Selector nodes and CombineSelector *)

(** What [combine] receives and what [stringify] is called on: a simple
    selector, or a [CombineSelector] over two nodes. *)
Inductive node : Type :=
| Simple (cache : Cache.t)
| CombineSelector (selector1 : node) (combinator : string) (selector2 : node).

(** [x.stringify()], dispatched on the prototype of [x].  The call runs
    inside the object and hands it back with the text, so that a change a
    call made to a bag would show.  For a [CombineSelector] the template
    literal evaluates [this.selector1.stringify()] first, then
    [this.selector2.stringify()]. *)
Fixpoint stringify (this : node) : outcome string * node :=
  match this with
  | Simple cache =>
      let (r, cache') := Selector.stringify cache in (r, Simple cache')
  | CombineSelector selector1 combinator selector2 =>
      match stringify selector1 with
      | (Throw e, selector1') =>
          (Throw e, CombineSelector selector1' combinator selector2)
      | (Return s1, selector1') =>
          match stringify selector2 with
          | (Throw e, selector2') =>
              (Throw e, CombineSelector selector1' combinator selector2')
          | (Return s2, selector2') =>
              (Return (s1 ++ " " ++ combinator ++ " " ++ s2),
               CombineSelector selector1' combinator selector2')
          end
      end
  end.

(** [n] calls of [stringify] in a row on one node: the outcomes in call
    order and the node after the last call. *)
Fixpoint stringify_times (n : nat) (this : node) : list (outcome string) * node :=
  match n with
  | O => ([], this)
  | S n' =>
      let (r, this') := stringify this in
      let (rs, this'') := stringify_times n' this' in
      (r :: rs, this'')
  end.

(* ===================================================================== *)
(** ** The facade *)

Module cssSelectorBuilder.

Definition element (value : string) : Cache.t := Selector.new "element" value.
Definition id (value : string) : Cache.t := Selector.new "id" value.
Definition class (value : string) : Cache.t := Selector.new "className" value.
Definition attr (value : string) : Cache.t := Selector.new "attribute" value.
Definition pseudoClass (value : string) : Cache.t := Selector.new "pseudoClass" value.
Definition pseudoElement (value : string) : Cache.t := Selector.new "pseudoElement" value.

Definition combine (selector1 : node) (combinator : string) (selector2 : node) : node :=
  CombineSelector selector1 combinator selector2.

End cssSelectorBuilder.

(* ===================================================================== *)
(** ** Fragment calls and chains *)

(** The six kinds of fragment, in the order of the selector grammar. *)
Inductive category : Type :=
| CatElement | CatId | CatClass | CatAttribute | CatPseudoClass | CatPseudoElement.

Definition index (k : category) : nat :=
  match k with
  | CatElement => 0
  | CatId => 1
  | CatClass => 2
  | CatAttribute => 3
  | CatPseudoClass => 4
  | CatPseudoElement => 5
  end.

Definition category_eqb (k1 k2 : category) : bool := Nat.eqb (index k1) (index k2).

(** The slots that hold one value; the other three are arrays. *)
Definition singleton (k : category) : bool :=
  match k with
  | CatElement | CatId | CatPseudoElement => true
  | _ => false
  end.

(** A fragment call: which fragment, with which value. *)
Definition call : Type := category * string.

(** The call made on the facade: [builder.k(value)]. *)
Definition factory (f : call) : Cache.t :=
  match f with
  | (CatElement, value) => cssSelectorBuilder.element value
  | (CatId, value) => cssSelectorBuilder.id value
  | (CatClass, value) => cssSelectorBuilder.class value
  | (CatAttribute, value) => cssSelectorBuilder.attr value
  | (CatPseudoClass, value) => cssSelectorBuilder.pseudoClass value
  | (CatPseudoElement, value) => cssSelectorBuilder.pseudoElement value
  end.

(** The call made on a selector: [selector.k(value)]. *)
Definition method (f : call) : M unit :=
  match f with
  | (CatElement, _) => Selector.element
  | (CatId, value) => Selector.id value
  | (CatClass, value) => Selector.class value
  | (CatAttribute, value) => Selector.attr value
  | (CatPseudoClass, value) => Selector.pseudoClass value
  | (CatPseudoElement, value) => Selector.pseudoElement value
  end.

(** [selector.k1(v1).k2(v2)...]: every method returns [this], the next call
    is made on it; the first throw ends the chain. *)
Fixpoint chain (fs : list call) : M unit :=
  match fs with
  | [] => ret tt
  | f :: fs' => method f ;; chain fs'
  end.

(** [builder.k0(v0).k1(v1)...] *)
Definition build (first : call) (rest : list call) : outcome unit * Cache.t :=
  chain rest (factory first).

(** Whether the bag holds a fragment of kind [k], as the guards of the
    methods test it. *)
Definition present (k : category) (c : Cache.t) : bool :=
  match k with
  | CatElement => truthy c.(Cache.element)
  | CatId => truthy c.(Cache.id)
  | CatClass => has_length c.(Cache.className)
  | CatAttribute => has_length c.(Cache.attribute)
  | CatPseudoClass => has_length c.(Cache.pseudoClass)
  | CatPseudoElement => truthy c.(Cache.pseudoElement)
  end.

(** The bag after a fragment of kind [k] was taken in: the assignment or
    the [push] of the method of [k]. *)
Definition store (f : call) (c : Cache.t) : Cache.t :=
  match f with
  | (CatElement, value) => Cache.set_element value c
  | (CatId, value) => Cache.set_id value c
  | (CatClass, value) => Cache.set_className (c.(Cache.className) ++ [value]) c
  | (CatAttribute, value) => Cache.set_attribute (c.(Cache.attribute) ++ [value]) c
  | (CatPseudoClass, value) => Cache.set_pseudoClass (c.(Cache.pseudoClass) ++ [value]) c
  | (CatPseudoElement, value) => Cache.set_pseudoElement value c
  end.

(* ===================================================================== *)
(** ** The rendering the specification describes *)

(** The values of the calls of kind [k], in call order. *)
Definition values (k : category) (fs : list call) : list string :=
  map snd (filter (fun f => category_eqb (fst f) k) fs).

(** The values that set a single-value slot.  An unset slot holds the empty
    string and every guard tests the slot by truthiness, so a call that
    hands in the empty string leaves its slot unset. *)
Definition set_values (k : category) (fs : list call) : list string :=
  filter truthy (values k fs).

(** The text the specification gives for the calls [fs]: the element (if
    set), [#] and the id (if set), [.] and each class, each attribute in
    brackets, [:] and each pseudo-class, [::] and the pseudo-element (if
    set); nothing in between. *)
Definition spec_stringify (fs : list call) : string :=
  String.concat "" (set_values CatElement fs)
  ++ String.concat "" (map (fun v => "#" ++ v) (set_values CatId fs))
  ++ String.concat "" (map (fun v => "." ++ v) (values CatClass fs))
  ++ String.concat "" (map (fun v => "[" ++ v ++ "]") (values CatAttribute fs))
  ++ String.concat "" (map (fun v => ":" ++ v) (values CatPseudoClass fs))
  ++ String.concat "" (map (fun v => "::" ++ v) (set_values CatPseudoElement fs)).

(** Category indexes never go down along the calls. *)
Fixpoint nondecreasing (ks : list category) : bool :=
  match ks with
  | [] => true
  | k :: ks' =>
      match ks' with
      | [] => true
      | k' :: _ => (index k <=? index k')%nat && nondecreasing ks'
      end
  end.

(** How many of the calls are of kind [k]. *)
Definition occurrences (k : category) (ks : list category) : nat :=
  length (filter (category_eqb k) ks).

(** No single-value kind is called twice. *)
Definition singletons_once (ks : list category) : bool :=
  (occurrences CatElement ks <=? 1)%nat
  && (occurrences CatId ks <=? 1)%nat
  && (occurrences CatPseudoElement ks <=? 1)%nat.

(** One more than the highest category index present in the bag; [0] for a
    bag that holds nothing. *)
Definition top (c : Cache.t) : nat :=
  if present CatPseudoElement c then 6
  else if present CatPseudoClass c then 5
  else if present CatAttribute c then 4
  else if present CatClass c then 3
  else if present CatId c then 2
  else if present CatElement c then 1
  else 0.

(** The double quote, for attribute values such as [href$=.png] with its
    value quoted. *)
Definition dquote : string := String (ascii_of_nat 34) EmptyString.

(* ===================================================================== *)
(** ** The text of one call and of a tree *)

(** What [Selector.prototype.stringify] writes for the value one call handed
    in: the piece of its body that reads the slot of that call. *)
Definition fragment (f : call) : string :=
  match f with
  | (CatElement, value) => value
  | (CatId, value) => if truthy value then "#" ++ value else ""
  | (CatClass, value) => "." ++ value
  | (CatAttribute, value) => "[" ++ value ++ "]"
  | (CatPseudoClass, value) => ":" ++ value
  | (CatPseudoElement, value) => if truthy value then "::" ++ value else ""
  end.

(** The string [stringify()] returns on a node. *)
Definition text (n : node) : string :=
  match fst (stringify n) with
  | Return s => s
  | Throw _ => ""
  end.

(** The simple selectors and the combinators of a tree, from left to
    right, each simple selector as its text. *)
Fixpoint tokens (n : node) : list string :=
  match n with
  | Simple cache => [text (Simple cache)]
  | CombineSelector selector1 combinator selector2 =>
      tokens selector1 ++ combinator :: tokens selector2
  end.

(** Every call hands in a non-empty value. *)
Definition all_truthy (fs : list call) : bool :=
  forallb (fun f => truthy (snd f)) fs.

(* ===================================================================== *)
(** ** Strings and joins *)

Lemma append_nil_r (s : string) : s ++ "" = s.
Proof. induction s as [|a s IH]; simpl; [reflexivity | now rewrite IH]. Qed.

Lemma append_assoc (s1 s2 s3 : string) : (s1 ++ s2) ++ s3 = s1 ++ (s2 ++ s3).
Proof. induction s1 as [|a s1 IH]; simpl; [reflexivity | now rewrite IH]. Qed.

(** [join('')] of an array is the join of a front part followed by the join
    of the rest. *)
Lemma join_app (l1 l2 : list string) :
  String.concat "" (l1 ++ l2) = String.concat "" l1 ++ String.concat "" l2.
Proof.
  induction l1 as [|x l1 IH]; simpl; [reflexivity|].
  destruct l1 as [|y l1].
  - simpl. destruct l2 as [|z l2]; simpl; [now rewrite append_nil_r | reflexivity].
  - change (String.concat "" (x :: y :: (l1 ++ l2)%list)
            = (x ++ String.concat "" (y :: l1)) ++ String.concat "" l2).
    change (String.concat "" (x :: y :: (l1 ++ l2)%list))
      with (x ++ String.concat "" (y :: (l1 ++ l2)%list)).
    change (y :: (l1 ++ l2)%list) with ((y :: l1) ++ l2)%list.
    rewrite IH. now rewrite append_assoc.
Qed.

Lemma join_single (s : string) : String.concat "" [s] = s.
Proof. reflexivity. Qed.

Lemma errors_distinct : DuplicateKindError <> OrderError.
Proof. discriminate. Qed.

(* ===================================================================== *)
(** ** What one method call does *)

(** Lays a method body open down to the tests on the bag. *)
Ltac run_methods :=
  unfold Selector.element, Selector.id, Selector.class, Selector.attr,
    Selector.pseudoClass, Selector.pseudoElement, bind, get, throw_if,
    throw, ret, modify; simpl.

Lemma has_length_app {A : Type} (l : list A) (x : A) : has_length (l ++ [x]) = true.
Proof. destruct l; reflexivity. Qed.

(** [top] is one more than the index of some fragment present, and no
    fragment present has a higher index. *)
Lemma present_below_top (k : category) (c : Cache.t) :
  present k c = true -> index k < top c.
Proof.
  unfold top. intros H.
  destruct (present CatPseudoElement c) eqn:E5; [destruct k; simpl; lia|].
  destruct (present CatPseudoClass c) eqn:E4; [destruct k; simpl; try lia; congruence|].
  destruct (present CatAttribute c) eqn:E3; [destruct k; simpl; try lia; congruence|].
  destruct (present CatClass c) eqn:E2; [destruct k; simpl; try lia; congruence|].
  destruct (present CatId c) eqn:E1; [destruct k; simpl; try lia; congruence|].
  destruct (present CatElement c) eqn:E0; [destruct k; simpl; try lia; congruence|].
  destruct k; congruence.
Qed.

Lemma top_reached (c : Cache.t) :
  0 < top c -> exists k, present k c = true /\ top c = S (index k).
Proof.
  unfold top.
  destruct (present CatPseudoElement c) eqn:E5; [exists CatPseudoElement; auto|].
  destruct (present CatPseudoClass c) eqn:E4; [exists CatPseudoClass; auto|].
  destruct (present CatAttribute c) eqn:E3; [exists CatAttribute; auto|].
  destruct (present CatClass c) eqn:E2; [exists CatClass; auto|].
  destruct (present CatId c) eqn:E1; [exists CatId; auto|].
  destruct (present CatElement c) eqn:E0; [exists CatElement; auto|].
  lia.
Qed.

(** Some fragment present has a higher index than [k]. *)
Lemma lower_iff_top (k : category) (c : Cache.t) :
  (exists k', present k' c = true /\ index k < index k') <-> S (index k) < top c.
Proof.
  split.
  - intros [k' [Hp Hlt]]. apply present_below_top in Hp. lia.
  - intros H. destruct (top_reached c) as [k' [Hp Ht]]; [lia|].
    exists k'. split; [exact Hp | lia].
Qed.

(** No fragment present has a higher index than [k]. *)
Lemma highest_iff_top (k : category) (c : Cache.t) :
  (forall k', present k' c = true -> index k' <= index k) <-> top c <= S (index k).
Proof.
  split.
  - intros H. destruct (Nat.eq_dec (top c) 0) as [E|E]; [lia|].
    destruct (top_reached c) as [k' [Hp Ht]]; [lia|].
    specialize (H k' Hp). lia.
  - intros H k' Hp. apply present_below_top in Hp. lia.
Qed.

(** The three ways a method call ends, read off the guards: a single-value
    slot that is taken; a later fragment in the bag (and [element] in any
    case); else the value is stored. *)
Lemma method_run (k : category) (v : string) (c : Cache.t) :
  method (k, v) c =
    if singleton k && present k c then (Throw DuplicateKindError, c)
    else if (S (index k) <? top c)%nat || category_eqb k CatElement
         then (Throw OrderError, c)
         else (Return tt, store (k, v) c).
Proof.
  destruct c as [e i cl at_ pc pe].
  destruct k; unfold top; simpl; run_methods;
    destruct e, i, cl, at_, pc, pe; reflexivity.
Qed.

(* ===================================================================== *)
(** ** Chains of calls *)

Lemma chain_cons (f : call) (fs : list call) (c : Cache.t) :
  chain (f :: fs) c =
    match method f c with
    | (Return _, c1) => chain fs c1
    | (Throw e, c1) => (Throw e, c1)
    end.
Proof. reflexivity. Qed.

(** A chain that runs through is made of calls that stored their value. *)
Lemma chain_cons_inv (k : category) (v : string) (fs : list call) (c c' : Cache.t) :
  chain ((k, v) :: fs) c = (Return tt, c') ->
  singleton k && present k c = false
  /\ k <> CatElement
  /\ chain fs (store (k, v) c) = (Return tt, c').
Proof.
  rewrite chain_cons, method_run.
  destruct (singleton k && present k c); [discriminate|].
  destruct ((S (index k) <? top c)%nat || category_eqb k CatElement) eqn:E;
    [discriminate|].
  intros H. repeat split; [|exact H].
  intros ->. rewrite orb_true_r in E. discriminate.
Qed.

(** The facade call fills the one slot of a fresh bag. *)
Lemma factory_store (f : call) : factory f = store f Cache.empty.
Proof. destruct f as [[] v]; reflexivity. Qed.

(** What a chain that ran through has left in each slot. *)
Lemma chain_fields (fs : list call) :
  forall c c' : Cache.t,
    chain fs c = (Return tt, c') ->
    values CatElement fs = []
    /\ c'.(Cache.element) = c.(Cache.element)
    /\ filter truthy (c.(Cache.id) :: values CatId fs) = filter truthy [c'.(Cache.id)]
    /\ c'.(Cache.className) = (c.(Cache.className) ++ values CatClass fs)%list
    /\ c'.(Cache.attribute) = (c.(Cache.attribute) ++ values CatAttribute fs)%list
    /\ c'.(Cache.pseudoClass) = (c.(Cache.pseudoClass) ++ values CatPseudoClass fs)%list
    /\ filter truthy (c.(Cache.pseudoElement) :: values CatPseudoElement fs)
       = filter truthy [c'.(Cache.pseudoElement)].
Proof.
  induction fs as [|[k v] fs IH]; intros c c' H.
  - inversion H; subst. unfold values; simpl.
    rewrite !app_nil_r. repeat split; reflexivity.
  - apply chain_cons_inv in H. destruct H as [Hdup [Hel H]].
    apply IH in H. destruct H as [He [He' [Hi [Hc [Ha [Hp Hpe]]]]]].
    destruct c as [e i cl at_ pc pe].
    destruct k; try congruence; unfold values in *; simpl in *;
      rewrite <- ?app_assoc in *; simpl in *;
      repeat split; try assumption.
    + destruct (truthy i); [discriminate | exact Hi].
    + destruct (truthy pe); [discriminate | exact Hpe].
Qed.

(** The text of a bag, slot by slot. *)
Lemma stringify_bag (c : Cache.t) :
  Selector.stringify c =
    (Return
       (String.concat "" (filter truthy [c.(Cache.element)])
        ++ String.concat "" (map (fun v => "#" ++ v) (filter truthy [c.(Cache.id)]))
        ++ String.concat "" (map (fun v => "." ++ v) c.(Cache.className))
        ++ String.concat "" (map (fun v => "[" ++ v ++ "]") c.(Cache.attribute))
        ++ String.concat "" (map (fun v => ":" ++ v) c.(Cache.pseudoClass))
        ++ String.concat "" (map (fun v => "::" ++ v) (filter truthy [c.(Cache.pseudoElement)]))),
     c).
Proof.
  destruct c as [e i cl at_ pc pe].
  unfold Selector.stringify, bind, get, ret. cbn [Cache.element Cache.id
    Cache.className Cache.attribute Cache.pseudoClass Cache.pseudoElement].
  f_equal. f_equal.
  destruct e as [|a e], i as [|b i], pe as [|d pe];
    cbn [truthy filter map String.concat];
    rewrite ?append_nil_r, ?append_assoc; reflexivity.
Qed.

(** A selector that was built renders as the specification says. *)
Lemma stringify_built (first : call) (rest : list call) (c : Cache.t) :
  build first rest = (Return tt, c) ->
  Selector.stringify c = (Return (spec_stringify (first :: rest)), c).
Proof.
  unfold build. rewrite factory_store. intros H.
  apply chain_fields in H. destruct H as [He [He' [Hi [Hc [Ha [Hp Hpe]]]]]].
  rewrite stringify_bag. unfold spec_stringify, set_values.
  rewrite He', <- Hi, Hc, Ha, Hp, <- Hpe.
  destruct first as [k v].
  destruct k; unfold values in *; simpl in *; try rewrite He; reflexivity.
Qed.

(** Storing a fragment of kind [k] lifts [top] to the index of [k] at most. *)
Lemma top_store (k : category) (v : string) (c : Cache.t) :
  top (store (k, v) c) <= Nat.max (top c) (S (index k)).
Proof.
  destruct c as [e i cl at_ pc pe].
  destruct k; unfold top; simpl; rewrite ?has_length_app;
    destruct (truthy pe), (has_length pc), (has_length at_), (has_length cl),
      (truthy i), (truthy e), (truthy v); simpl; lia.
Qed.

Lemma singletons_once_tail (k : category) (ks : list category) :
  singletons_once (k :: ks) = true -> singletons_once ks = true.
Proof.
  unfold singletons_once, occurrences. rewrite !andb_true_iff, !Nat.leb_le.
  destruct k; simpl; lia.
Qed.

(** A single-value kind called twice in a row breaks [singletons_once]. *)
Lemma singletons_once_repeat (k : category) (ks : list category) :
  singletons_once (k :: k :: ks) = true -> singleton k = false.
Proof.
  unfold singletons_once, occurrences. rewrite !andb_true_iff, !Nat.leb_le.
  destruct k; simpl; try reflexivity; lia.
Qed.

Lemma index_inj (k1 k2 : category) : index k1 = index k2 -> k1 = k2.
Proof. destruct k1, k2; simpl; intros H; try reflexivity; discriminate. Qed.

(** After a call of kind [p], a chain whose kinds go up from [p] and repeat
    no single-value kind runs through. *)
Lemma chain_succeeds (fs : list call) :
  forall (p : category) (c : Cache.t),
    top c <= S (index p) ->
    nondecreasing (p :: map fst fs) = true ->
    singletons_once (p :: map fst fs) = true ->
    exists c', chain fs c = (Return tt, c').
Proof.
  induction fs as [|[k v] fs IH]; intros p c Htop Hord Honce.
  - exists c. reflexivity.
  - change (map fst ((k, v) :: fs)) with (k :: map fst fs) in *.
    change (nondecreasing (p :: k :: map fst fs))
      with ((index p <=? index k)%nat && nondecreasing (k :: map fst fs)) in Hord.
    apply andb_true_iff in Hord. destruct Hord as [Hpk Hord].
    apply Nat.leb_le in Hpk.
    assert (Hdup : singleton k && present k c = false).
    { destruct (singleton k) eqn:Es; [|reflexivity].
      destruct (present k c) eqn:Ep; [|reflexivity].
      apply present_below_top in Ep.
      assert (k = p) by (apply index_inj; lia). subst p.
      apply singletons_once_repeat in Honce. congruence. }
    assert (Hel : category_eqb k CatElement = false).
    { destruct (category_eqb k CatElement) eqn:E; [|reflexivity].
      apply Nat.eqb_eq in E. apply (index_inj k CatElement) in E. subst k.
      assert (p = CatElement) by (apply index_inj; simpl in *; lia). subst p.
      apply singletons_once_repeat in Honce. discriminate. }
    assert (Hlow : (S (index k) <? top c)%nat = false)
      by (apply Nat.ltb_ge; lia).
    rewrite chain_cons, method_run, Hdup, Hlow, Hel. cbn [orb].
    apply (IH k).
    + pose proof (top_store k v c). lia.
    + exact Hord.
    + apply singletons_once_tail in Honce. exact Honce.
Qed.

Lemma top_factory (k : category) (v : string) : top (factory (k, v)) <= S (index k).
Proof.
  rewrite factory_store. pose proof (top_store k v Cache.empty) as H.
  change (top Cache.empty) with 0 in H. lia.
Qed.

Lemma chain_app (fs1 fs2 : list call) :
  forall c : Cache.t,
    chain (fs1 ++ fs2) c =
      match chain fs1 c with
      | (Return _, c1) => chain fs2 c1
      | (Throw e, c1) => (Throw e, c1)
      end.
Proof.
  induction fs1 as [|f fs1 IH]; intros c; [reflexivity|].
  change ((f :: fs1) ++ fs2)%list with (f :: (fs1 ++ fs2)%list).
  rewrite !chain_cons.
  destruct (method f c) as [[[]|e] c1]; [apply IH | reflexivity].
Qed.

(** A method call that throws has not touched the bag, and what it throws
    is one of the two errors. *)
Lemma method_throw (f : call) (c c' : Cache.t) (e : exn) :
  method f c = (Throw e, c') ->
  c' = c /\ (e = DuplicateKindError \/ e = OrderError).
Proof.
  destruct f as [k v]. rewrite method_run.
  destruct (singleton k && present k c).
  - intros H; inversion H; auto.
  - destruct ((S (index k) <? top c)%nat || category_eqb k CatElement).
    + intros H; inversion H; auto.
    + discriminate.
Qed.

(* ===================================================================== *)
(** ** Rendering nodes *)

(** [stringify] returns a text and hands the node back as it was. *)
Lemma stringify_returns (n : node) : exists s, stringify n = (Return s, n).
Proof.
  induction n as [c | n1 [s1 IH1] k n2 [s2 IH2]].
  - cbn [stringify]. rewrite stringify_bag. eexists. reflexivity.
  - cbn [stringify]. rewrite IH1, IH2. eexists. reflexivity.
Qed.

Lemma stringify_times_returns (n : node) (s : string) :
  stringify n = (Return s, n) ->
  forall N, stringify_times N n = (repeat (Return s) N, n).
Proof.
  intros H N. induction N as [|N IH]; [reflexivity|].
  simpl. rewrite H, IH. reflexivity.
Qed.

(* ===================================================================== *)
(** ** Rectangle: what the constructor stores and what [getArea] returns *)

(** C10: for every pair of numbers [w] and [h], the rectangle constructed
    with them holds [w] as its width and [h] as its height, unchanged, and
    its [getArea()] returns the binary64 product [w * h]. *)
Theorem rectangle_area (w h : float) :
  RectangleTask.width (RectangleTask.Rectangle w h) = w
  /\ RectangleTask.height (RectangleTask.Rectangle w h) = h
  /\ RectangleTask.getArea (RectangleTask.Rectangle w h) = (w * h)%float.
Proof. repeat split. Qed.

(** The example of the documentation: 10 by 20 has area 200. *)
Example rectangle_10_20 :
  RectangleTask.getArea (RectangleTask.Rectangle 10 20) = 200%float.
Proof. reflexivity. Qed.

(* ===================================================================== *)
(** ** Simple selectors: what [stringify] returns *)

(** C1: take any sequence of fragment calls, the first on the facade and
    the others chained on the selector, whose category indexes never go
    down.  Every selector built by it (every call returned) stringifies to
    the concatenation the specification gives: the element if set, [#] and
    the id if set, [.] and each class name in insertion order, each
    attribute in brackets in insertion order, [:] and each pseudo-class in
    insertion order, [::] and the pseudo-element if set; a slot is set when
    it holds a non-empty string.  When moreover no single-value kind is
    called twice the sequence does build a selector.  A selector with no
    fragment stringifies to the empty string. *)
Theorem stringify_valid_chain (first : call) (rest : list call) :
  nondecreasing (map fst (first :: rest)) = true ->
  (forall c, build first rest = (Return tt, c) ->
     Selector.stringify c = (Return (spec_stringify (first :: rest)), c))
  /\ (singletons_once (map fst (first :: rest)) = true ->
      exists c, build first rest = (Return tt, c))
  /\ Selector.stringify Cache.empty = (Return "", Cache.empty).
Proof.
  intros Hord. split; [|split].
  - intros c H. apply stringify_built. exact H.
  - intros Honce. destruct first as [k v]. unfold build.
    apply (chain_succeeds rest k); [apply top_factory | exact Hord | exact Honce].
  - reflexivity.
Qed.

Lemma stringify_valid_chain_witness :
  exists c,
    build (CatElement, "div")
      [(CatId, "main"); (CatClass, "container"); (CatClass, "draggable");
       (CatAttribute, "href"); (CatPseudoClass, "focus"); (CatPseudoClass, "hover");
       (CatPseudoElement, "after")] = (Return tt, c)
    /\ Selector.stringify c =
         (Return "div#main.container.draggable[href]:focus:hover::after", c).
Proof.
  destruct (stringify_valid_chain (CatElement, "div")
      [(CatId, "main"); (CatClass, "container"); (CatClass, "draggable");
       (CatAttribute, "href"); (CatPseudoClass, "focus"); (CatPseudoClass, "hover");
       (CatPseudoElement, "after")] eq_refl) as [Hs [Hb _]].
  destruct (Hb eq_refl) as [c Hc].
  exists c. split; [exact Hc | exact (Hs c Hc)].
Defined.

(** The first two scenarios of the specification. *)
Example scenario_id_class_class :
  let (r, c) := build (CatId, "main") [(CatClass, "container"); (CatClass, "editable")] in
  r = Return tt /\ fst (Selector.stringify c) = Return "#main.container.editable".
Proof. split; reflexivity. Qed.

Example scenario_element_attr_pseudoClass :
  let (r, c) := build (CatElement, "a")
                  [(CatAttribute, "href$=" ++ dquote ++ ".png" ++ dquote);
                   (CatPseudoClass, "focus")] in
  r = Return tt
  /\ fst (Selector.stringify c)
     = Return ("a[href$=" ++ dquote ++ ".png" ++ dquote ++ "]:focus").
Proof. split; reflexivity. Qed.

(* ===================================================================== *)
(** ** Combined selectors *)

(** C2: for all nodes [selector1] and [selector2], simple or combined to
    any depth, and every string [combinator],
    [combine(selector1, combinator, selector2).stringify()] is
    [selector1.stringify()], a space, the combinator, a space,
    [selector2.stringify()]; with the descendant combinator, itself a
    space, three spaces stand between the two texts. *)
Theorem combine_stringify (selector1 selector2 : node) (combinator : string) :
  exists s1 s2 : string,
    fst (stringify selector1) = Return s1
    /\ fst (stringify selector2) = Return s2
    /\ fst (stringify (cssSelectorBuilder.combine selector1 combinator selector2))
       = Return (s1 ++ " " ++ combinator ++ " " ++ s2)
    /\ fst (stringify (cssSelectorBuilder.combine selector1 " " selector2))
       = Return (s1 ++ "   " ++ s2).
Proof.
  destruct (stringify_returns selector1) as [s1 H1].
  destruct (stringify_returns selector2) as [s2 H2].
  exists s1, s2. unfold cssSelectorBuilder.combine. cbn [stringify].
  rewrite H1, H2. repeat split.
Qed.

(** The nested example of the documentation. *)
Example scenario_nested_combine :
  let b := cssSelectorBuilder.combine in
  let built first rest := Simple (snd (build first rest)) in
  fst (stringify
         (b (built (CatElement, "div")
               [(CatId, "main"); (CatClass, "container"); (CatClass, "draggable")])
            "+"
            (b (built (CatElement, "table") [(CatId, "data")])
               "~"
               (b (built (CatElement, "tr") [(CatPseudoClass, "nth-of-type(even)")])
                  " "
                  (built (CatElement, "td") [(CatPseudoClass, "nth-of-type(even)")])))))
  = Return "div#main.container.draggable + table#data ~ tr:nth-of-type(even)   td:nth-of-type(even)".
Proof. reflexivity. Qed.

(** C7: [stringify()] returns a text, and throws nothing, on every selector
    node, simple or combined; [combine] checks nothing: for every string it
    returns the node that holds its three arguments as they were given, and
    the text of that node has the combinator in it as it was given. *)
Theorem stringify_combine_never_fail :
  (forall n : node, exists s, fst (stringify n) = Return s)
  /\ (forall (n : node) (e : exn), fst (stringify n) <> Throw e)
  /\ (forall (selector1 selector2 : node) (combinator : string),
        cssSelectorBuilder.combine selector1 combinator selector2
        = CombineSelector selector1 combinator selector2
        /\ exists s1 s2,
             fst (stringify (cssSelectorBuilder.combine selector1 combinator selector2))
             = Return (s1 ++ " " ++ combinator ++ " " ++ s2)).
Proof.
  split; [|split].
  - intros n. destruct (stringify_returns n) as [s H]. exists s. now rewrite H.
  - intros n e. destruct (stringify_returns n) as [s H]. rewrite H. discriminate.
  - intros n1 n2 k. split; [reflexivity|].
    destruct (stringify_returns n1) as [s1 H1].
    destruct (stringify_returns n2) as [s2 H2].
    exists s1, s2. unfold cssSelectorBuilder.combine. cbn [stringify].
    rewrite H1, H2. reflexivity.
Qed.

(** C8: [stringify()] has no side effect and gives the same text each time:
    [N] calls in a row on a node return [N] times the text of the first
    call and leave the node as it was; so does one call on the bag of a
    simple selector. *)
Theorem stringify_idempotent (n : node) (N : nat) :
  stringify_times N n = (repeat (fst (stringify n)) N, n)
  /\ snd (stringify n) = n
  /\ (forall c : Cache.t, snd (Selector.stringify c) = c).
Proof.
  destruct (stringify_returns n) as [s H]. rewrite H. cbn [fst snd].
  split; [|split].
  - apply stringify_times_returns. exact H.
  - reflexivity.
  - intros c. rewrite stringify_bag. reflexivity.
Qed.

(* ===================================================================== *)
(** ** The guards of the fragment methods *)

(** C3, as the code has it: a fragment whose category index is strictly
    lower than the highest category index present is refused, with
    [DuplicateKindError] when it is an element or an id whose own slot is
    taken (the duplicate guard comes first) and with [OrderError]
    otherwise; an id, class, attribute, pseudo-class or pseudo-element call
    whose category index is at least that of every fragment present, and
    which does not find its own single-value slot taken, stores its value
    and returns.  (The [element] method returns on no selector.) *)
Theorem order_guard (k : category) (v : string) (c : Cache.t) :
  ((exists k', present k' c = true /\ index k < index k') ->
     method (k, v) c =
       (Throw (if singleton k && present k c then DuplicateKindError else OrderError), c))
  /\ ((forall k', present k' c = true -> index k' <= index k) ->
      singleton k && present k c = false ->
      k <> CatElement ->
      method (k, v) c = (Return tt, store (k, v) c)).
Proof.
  split.
  - intros H. apply lower_iff_top in H. apply Nat.ltb_lt in H.
    rewrite method_run, H. destruct (singleton k && present k c); reflexivity.
  - intros H Hdup Hel. apply highest_iff_top in H.
    assert (Hlow : (S (index k) <? top c)%nat = false) by (apply Nat.ltb_ge; lia).
    assert (He : category_eqb k CatElement = false) by (destruct k; try reflexivity; congruence).
    rewrite method_run, Hdup, Hlow, He. reflexivity.
Qed.

Lemma order_guard_witness :
  let c := snd (build (CatElement, "a") [(CatClass, "b"); (CatAttribute, "href")]) in
  method (CatId, "main") c = (Throw OrderError, c)
  /\ method (CatElement, "x") c = (Throw DuplicateKindError, c)
  /\ method (CatAttribute, "title") c
     = (Return tt, store (CatAttribute, "title") c).
Proof.
  set (c0 := snd (build (CatElement, "a") [(CatClass, "b"); (CatAttribute, "href")])).
  assert (Hlow : forall k, index k < index CatAttribute ->
            exists k', present k' c0 = true /\ index k < index k')
    by (intros k Hk; exists CatAttribute; split; [reflexivity | exact Hk]).
  assert (Htop : forall k', present k' c0 = true -> index k' <= index CatAttribute)
    by (intros k' Hk'; destruct k'; simpl in *; try lia; discriminate).
  split; [|split].
  - apply (proj1 (order_guard CatId "main" c0)). apply Hlow. simpl. lia.
  - apply (proj1 (order_guard CatElement "x" c0)). apply Hlow. simpl. lia.
  - apply (proj2 (order_guard CatAttribute "title" c0));
      [exact Htop | reflexivity | discriminate].
Defined.

(** C3 as it is stated fails on [id('a').class('b').id('c')]: the id has a
    lower index than the class present, and the call raises
    [DuplicateKindError], not [OrderError]. *)
Lemma order_guard_counterexample :
  let c := snd (build (CatId, "a") [(CatClass, "b")]) in
  fst (build (CatId, "a") [(CatClass, "b")]) = Return tt
  /\ present CatClass c = true
  /\ index CatId < index CatClass
  /\ method (CatId, "c") c = (Throw DuplicateKindError, c)
  /\ fst (method (CatId, "c") c) <> Throw OrderError.
Proof.
  simpl. repeat split; try reflexivity; [lia | discriminate].
Qed.

(** The duplicate guard of [id] and of [pseudoElement]: on a slot that is
    present the call raises [DuplicateKindError] and leaves the selector as
    it was, whatever the other slots hold and whatever the value given. *)
Lemma duplicate_guard (k : category) (v : string) (c : Cache.t) :
  k = CatId \/ k = CatPseudoElement ->
  present k c = true ->
  method (k, v) c = (Throw DuplicateKindError, c).
Proof.
  intros Hk Hp. rewrite method_run, Hp.
  destruct Hk as [-> | ->]; reflexivity.
Qed.

(** C5, as the code has it: on every selector on which a slot other than
    element is non-empty, [element(value)] raises [DuplicateKindError] when
    the element slot is set and [OrderError] when it is not. *)
Theorem element_guard (c : Cache.t) :
  (exists k, k <> CatElement /\ present k c = true) ->
  Selector.element c =
    (Throw (if present CatElement c then DuplicateKindError else OrderError), c).
Proof.
  intros _. change Selector.element with (method (CatElement, "")).
  rewrite method_run. cbn [singleton andb category_eqb index Nat.eqb].
  rewrite orb_true_r. destruct (present CatElement c); reflexivity.
Qed.

(** [id('id').element('div')] raises [OrderError];
    [element('div').id('main').class('container').class('draggable')]
    followed by [element('x')] raises [DuplicateKindError]. *)
Lemma element_guard_witness :
  build (CatId, "id") [(CatElement, "div")] = (Throw OrderError, cssSelectorBuilder.id "id")
  /\ fst (build (CatElement, "div")
            [(CatId, "main"); (CatClass, "container"); (CatClass, "draggable");
             (CatElement, "x")]) = Throw DuplicateKindError.
Proof.
  split.
  - apply (element_guard (cssSelectorBuilder.id "id")).
    exists CatId. split; [discriminate | reflexivity].
  - set (c := snd (build (CatElement, "div")
                [(CatId, "main"); (CatClass, "container"); (CatClass, "draggable")])).
    change (fst (Selector.element c) = Throw DuplicateKindError).
    rewrite (element_guard c); [reflexivity|].
    exists CatId. split; [discriminate | reflexivity].
Defined.

(** C5 as it is stated fails on the scenario it names: after
    [element('div').id('main').class('container').class('draggable')] the
    id slot is non-empty and [element('x')] raises [DuplicateKindError],
    not [OrderError]. *)
Lemma element_guard_counterexample :
  let c := snd (build (CatElement, "div")
                  [(CatId, "main"); (CatClass, "container"); (CatClass, "draggable")]) in
  fst (build (CatElement, "div")
         [(CatId, "main"); (CatClass, "container"); (CatClass, "draggable")]) = Return tt
  /\ present CatId c = true
  /\ Selector.element c = (Throw DuplicateKindError, c)
  /\ fst (Selector.element c) <> Throw OrderError.
Proof.
  simpl. repeat split; try reflexivity; discriminate.
Qed.

(** C6: a fragment call that raises an error, [DuplicateKindError] or
    [OrderError], leaves the selector as it was before the call: no slot is
    set and nothing is appended.  The error is the outcome of the chain the
    call stands in: the calls after it are not made, and the selector holds
    what the calls before it stored. *)
Theorem failed_call_keeps_state (f : call) (c c' : Cache.t) (e : exn) :
  method f c = (Throw e, c') ->
  c' = c
  /\ (e = DuplicateKindError \/ e = OrderError)
  /\ (forall (before after : list call) (c0 : Cache.t),
        chain before c0 = (Return tt, c) ->
        chain (before ++ f :: after) c0 = (Throw e, c)).
Proof.
  intros H. destruct (method_throw f c c' e H) as [-> He].
  split; [reflexivity | split; [exact He|]].
  intros before after c0 Hb.
  rewrite chain_app, Hb, chain_cons, H. reflexivity.
Qed.

(** [element('a').attr('href').class('b').pseudoClass('hover')]: the class
    call raises [OrderError] and the selector still holds the element and
    the attribute, nothing else. *)
Lemma failed_call_keeps_state_witness :
  let c := snd (build (CatElement, "a") [(CatAttribute, "href")]) in
  method (CatClass, "b") c = (Throw OrderError, c)
  /\ chain ([(CatAttribute, "href")] ++ (CatClass, "b") :: [(CatPseudoClass, "hover")])
       (cssSelectorBuilder.element "a")
     = (Throw OrderError, c).
Proof.
  set (c0 := snd (build (CatElement, "a") [(CatAttribute, "href")])).
  assert (H : method (CatClass, "b") c0 = (Throw OrderError, c0)) by reflexivity.
  destruct (failed_call_keeps_state (CatClass, "b") c0 c0 OrderError H) as [_ [_ Hc]].
  split; [exact H|].
  exact (Hc [(CatAttribute, "href")] [(CatPseudoClass, "hover")]
           (cssSelectorBuilder.element "a") eq_refl).
Defined.

(** C9, as the code has it: a single-value slot is taken when the value it
    holds is truthy, not when a call was made.  On a slot that holds the
    empty string, as after [id('')] on the facade, a call for that slot
    does not raise [DuplicateKindError]: [pseudoElement] overwrites the
    slot; [id] overwrites the slot unless a class, attribute, pseudo-class
    or pseudo-element is present, and then raises [OrderError]; [element]
    raises [OrderError]. *)
Theorem empty_slot_not_taken (v : string) (c : Cache.t) :
  (c.(Cache.element) = "" -> Selector.element c = (Throw OrderError, c))
  /\ (c.(Cache.id) = "" ->
      Selector.id v c =
        if present CatClass c || present CatAttribute c
           || present CatPseudoClass c || present CatPseudoElement c
        then (Throw OrderError, c)
        else (Return tt, Cache.set_id v c))
  /\ (c.(Cache.pseudoElement) = "" ->
      Selector.pseudoElement v c = (Return tt, Cache.set_pseudoElement v c))
  /\ cssSelectorBuilder.element "" = Cache.empty
  /\ cssSelectorBuilder.id "" = Cache.empty
  /\ cssSelectorBuilder.pseudoElement "" = Cache.empty.
Proof.
  destruct c as [e i cl at_ pc pe]. cbn [Cache.element Cache.id Cache.pseudoElement].
  repeat split.
  - intros ->. reflexivity.
  - intros ->. destruct cl, at_, pc, pe; reflexivity.
  - intros ->. reflexivity.
Qed.

(** [id('').id('b')] is the selector [id('b')] builds;
    [pseudoElement('').pseudoElement('after')] likewise;
    [element('').element('x')] raises [OrderError]. *)
Lemma empty_slot_not_taken_witness :
  build (CatId, "") [(CatId, "b")] = (Return tt, cssSelectorBuilder.id "b")
  /\ build (CatPseudoElement, "") [(CatPseudoElement, "after")]
     = (Return tt, cssSelectorBuilder.pseudoElement "after")
  /\ build (CatElement, "") [(CatElement, "x")] = (Throw OrderError, Cache.empty).
Proof.
  split; [|split].
  - exact (proj1 (proj2 (empty_slot_not_taken "b" (cssSelectorBuilder.id ""))) eq_refl).
  - exact (proj1 (proj2 (proj2 (empty_slot_not_taken "after"
             (cssSelectorBuilder.pseudoElement "")))) eq_refl).
  - exact (proj1 (empty_slot_not_taken "x" (cssSelectorBuilder.element "")) eq_refl).
Defined.

(** The empty string sets nothing that [stringify] shows: [id('')] renders
    as the empty string, with no [#]. *)
Example empty_id_renders_nothing :
  fst (Selector.stringify (cssSelectorBuilder.id "")) = Return "".
Proof. reflexivity. Qed.

(** C9 as it is stated fails on [id('').class('a').id('b')]: the id slot
    holds the empty string, and the second id call neither overwrites it
    nor is an [element] call: it raises [OrderError] and the slot stays
    empty. *)
Lemma empty_slot_counterexample :
  let c := snd (build (CatId, "") [(CatClass, "a")]) in
  fst (build (CatId, "") [(CatClass, "a")]) = Return tt
  /\ c.(Cache.id) = ""
  /\ Selector.id "b" c = (Throw OrderError, c)
  /\ snd (Selector.id "b" c) <> Cache.set_id "b" c.
Proof.
  simpl. repeat split; try reflexivity; discriminate.
Qed.

(* ===================================================================== *)
(** ** Further properties: the text grows call by call *)

Lemma join_cons (x : string) (l : list string) :
  String.concat "" (x :: l) = x ++ String.concat "" l.
Proof. destruct l; simpl; [now rewrite append_nil_r | reflexivity]. Qed.

(** What a method call that returned has passed, and what it has done. *)
Lemma method_return (k : category) (v : string) (c c' : Cache.t) :
  method (k, v) c = (Return tt, c') ->
  singleton k && present k c = false
  /\ top c <= S (index k)
  /\ k <> CatElement
  /\ c' = store (k, v) c.
Proof.
  rewrite method_run.
  destruct (singleton k && present k c); [discriminate|].
  destruct (S (index k) <? top c)%nat eqn:E1; [discriminate|].
  destruct (category_eqb k CatElement) eqn:E2; [discriminate|].
  cbn [orb]. intros H. inversion H. apply Nat.ltb_ge in E1.
  repeat split; try assumption. intros ->. discriminate.
Qed.

(** The slots after the one a call of kind [k] writes are empty when the
    call returns, so what the call adds to the text stands at its end. *)
Lemma method_text (k : category) (v : string) (c c' : Cache.t) (s : string) :
  method (k, v) c = (Return tt, c') ->
  Selector.stringify c = (Return s, c) ->
  Selector.stringify c' = (Return (s ++ fragment (k, v)), c').
Proof.
  intros H Hs. apply method_return in H. destruct H as [Hdup [Htop [Hel ->]]].
  rewrite stringify_bag in Hs. inversion Hs as [Ht]. clear Hs Ht.
  rewrite stringify_bag. f_equal. f_equal.
  destruct c as [e i cl at_ pc pe]. unfold top in Htop.
  destruct k; try congruence;
    cbn [index singleton present andb Cache.element Cache.id Cache.className
      Cache.attribute Cache.pseudoClass Cache.pseudoElement] in *;
    cbn [store fragment Cache.set_id Cache.set_className Cache.set_attribute
      Cache.set_pseudoClass Cache.set_pseudoElement Cache.element Cache.id
      Cache.className Cache.attribute Cache.pseudoClass Cache.pseudoElement];
    rewrite ?map_app, ?join_app.
  - destruct pe; [|simpl in Htop; lia]. destruct pc; [|simpl in Htop; lia].
    destruct at_; [|simpl in Htop; lia]. destruct cl; [|simpl in Htop; lia].
    destruct i; [|discriminate].
    destruct e, v; simpl; rewrite ?append_nil_r; reflexivity.
  - destruct pe; [|simpl in Htop; lia]. destruct pc; [|simpl in Htop; lia].
    destruct at_; [|simpl in Htop; destruct (has_length cl); lia].
    cbn [map String.concat filter truthy].
    rewrite ?append_nil_r, ?append_assoc. reflexivity.
  - destruct pe; [|simpl in Htop; lia].
    destruct pc; [|simpl in Htop; destruct (has_length at_), (has_length cl); lia].
    cbn [map String.concat filter truthy].
    rewrite ?append_nil_r, ?append_assoc. reflexivity.
  - destruct pe; [|simpl in Htop; lia].
    cbn [map String.concat filter truthy].
    rewrite ?append_nil_r, ?append_assoc. reflexivity.
  - destruct pe; [|discriminate].
    destruct v; cbn [map String.concat filter truthy];
      rewrite ?append_nil_r, ?append_assoc; reflexivity.
Qed.

Lemma factory_text (f : call) :
  Selector.stringify (factory f) = (Return (fragment f), factory f).
Proof.
  destruct f as [k v]. rewrite stringify_bag. f_equal. f_equal.
  destruct k, v; cbn; rewrite ?append_nil_r; reflexivity.
Qed.

Lemma chain_text (fs : list call) :
  forall (c c' : Cache.t) (s : string),
    chain fs c = (Return tt, c') ->
    Selector.stringify c = (Return s, c) ->
    Selector.stringify c' = (Return (s ++ String.concat "" (map fragment fs)), c').
Proof.
  induction fs as [|[k v] fs IH]; intros c c' s H Hs.
  - inversion H; subst. cbn. rewrite append_nil_r. exact Hs.
  - rewrite chain_cons in H.
    destruct (method (k, v) c) as [[[]|e] c1] eqn:Hm; [|discriminate].
    pose proof (method_text k v c c1 s Hm Hs) as H1.
    rewrite (IH c1 c' _ H H1).
    change (map fragment ((k, v) :: fs)) with (fragment (k, v) :: map fragment fs).
    rewrite join_cons, append_assoc. reflexivity.
Qed.

(** X1: a fragment call that returns adds its own piece at the end of the
    text of the selector and changes nothing before it: the text after the
    call is the text before it followed by the fragment of the call. *)
Theorem call_appends_fragment (f : call) (c c' : Cache.t) :
  method f c = (Return tt, c') ->
  exists s,
    Selector.stringify c = (Return s, c)
    /\ Selector.stringify c' = (Return (s ++ fragment f), c').
Proof.
  intros H. destruct f as [k v].
  destruct (stringify_returns (Simple c)) as [s Hs]. cbn [stringify] in Hs.
  destruct (Selector.stringify c) as [r c0] eqn:Hc. inversion Hs; subst.
  exists s. split; [reflexivity|].
  exact (method_text k v c c' s H Hc).
Qed.

Lemma call_appends_fragment_witness :
  exists s,
    Selector.stringify (cssSelectorBuilder.element "a")
      = (Return s, cssSelectorBuilder.element "a")
    /\ fst (Selector.stringify (store (CatClass, "b") (cssSelectorBuilder.element "a")))
       = Return (s ++ ".b").
Proof.
  destruct (call_appends_fragment (CatClass, "b") (cssSelectorBuilder.element "a")
              (store (CatClass, "b") (cssSelectorBuilder.element "a")) eq_refl)
    as [s [H1 H2]].
  exists s. split; [exact H1 | now rewrite H2].
Defined.

(** X2: the text of a selector that was built, by any calls that all
    returned, is the fragments of its calls one after the other in call
    order, the facade call first. *)
Theorem built_text_in_call_order (first : call) (rest : list call) (c : Cache.t) :
  build first rest = (Return tt, c) ->
  Selector.stringify c = (Return (String.concat "" (map fragment (first :: rest))), c).
Proof.
  unfold build. intros H.
  rewrite (chain_text rest (factory first) c (fragment first) H (factory_text first)).
  change (map fragment (first :: rest)) with (fragment first :: map fragment rest).
  rewrite join_cons. reflexivity.
Qed.

Lemma built_text_in_call_order_witness :
  let c := snd (build (CatId, "main") [(CatClass, "container"); (CatClass, "editable")]) in
  Selector.stringify c = (Return "#main.container.editable", c).
Proof.
  exact (built_text_in_call_order (CatId, "main")
           [(CatClass, "container"); (CatClass, "editable")] _ eq_refl).
Defined.

(* ===================================================================== *)
(** ** Further properties: which chains the builder accepts *)

Lemma existsb_kind (k : category) (ks : list category) :
  existsb (category_eqb k) ks = true <-> In k ks.
Proof.
  rewrite existsb_exists. split.
  - intros [x [Hin Heq]]. apply Nat.eqb_eq in Heq. apply index_inj in Heq. now subst.
  - intros Hin. exists k. split; [exact Hin | apply Nat.eqb_refl].
Qed.

(** A call that returned with a non-empty value has made its kind present
    and has left the presence of the other kinds as it was. *)
Lemma step_present (k1 : category) (v1 : string) (c c1 : Cache.t) (k : category) :
  method (k1, v1) c = (Return tt, c1) ->
  truthy v1 = true ->
  present k c1 = present k c || category_eqb k k1.
Proof.
  intros H Hv. apply method_return in H. destruct H as [Hdup [_ [Hel ->]]].
  destruct c as [e i cl at_ pc pe].
  destruct k1; try congruence; destruct k; cbn in *;
    rewrite ?has_length_app, ?Hv, ?Hdup, ?orb_false_r, ?orb_true_r;
    try reflexivity.
Qed.

Lemma chain_present (fs : list call) :
  forall (c c' : Cache.t) (k : category),
    chain fs c = (Return tt, c') ->
    all_truthy fs = true ->
    present k c' = present k c || existsb (category_eqb k) (map fst fs).
Proof.
  induction fs as [|[k1 v1] fs IH]; intros c c' k H Ht.
  - inversion H; subst. cbn. now rewrite orb_false_r.
  - rewrite chain_cons in H.
    destruct (method (k1, v1) c) as [[[]|e] c1] eqn:Hm; [|discriminate].
    cbn in Ht. apply andb_true_iff in Ht. destruct Ht as [Hv Ht].
    rewrite (IH c1 c' k H Ht), (step_present k1 v1 c c1 k Hm Hv).
    cbn. now rewrite orb_assoc.
Qed.

Lemma factory_present (k p : category) (v : string) :
  truthy v = true -> present k (factory (p, v)) = category_eqb k p.
Proof. intros Hv. destruct p, k; cbn; rewrite ?Hv; reflexivity. Qed.

(** With a non-empty value, a value stored at the top makes its kind the
    highest one present. *)
Lemma top_store_eq (k : category) (v : string) (c : Cache.t) :
  truthy v = true -> top c <= S (index k) -> top (store (k, v) c) = S (index k).
Proof.
  intros Hv. destruct c as [e i cl at_ pc pe].
  destruct k; unfold top; cbn; rewrite ?has_length_app, ?Hv;
    destruct (truthy pe), (has_length pc), (has_length at_), (has_length cl),
      (truthy i), (truthy e); cbn; lia.
Qed.

Lemma top_factory_eq (k : category) (v : string) :
  truthy v = true -> top (factory (k, v)) = S (index k).
Proof.
  intros Hv. rewrite factory_store. apply top_store_eq; [exact Hv|].
  change (top Cache.empty) with 0. lia.
Qed.

Lemma top_present (p : category) (c : Cache.t) :
  top c = S (index p) -> present p c = true.
Proof.
  intros H. destruct (top_reached c) as [k [Hk Ht]]; [lia|].
  assert (k = p) by (apply index_inj; lia). now subst.
Qed.

(** Kinds that go up from [k] hold no kind below [k]. *)
Lemma occurrences_below (ks : list category) :
  forall k p : category,
    nondecreasing (k :: ks) = true -> index p < index k ->
    occurrences p (k :: ks) = 0.
Proof.
  induction ks as [|k' ks IH]; intros k p Hord Hlt.
  - unfold occurrences. cbn. destruct (category_eqb p k) eqn:E; [|reflexivity].
    apply Nat.eqb_eq in E. lia.
  - change (nondecreasing (k :: k' :: ks))
      with ((index k <=? index k')%nat && nondecreasing (k' :: ks)) in Hord.
    apply andb_true_iff in Hord. destruct Hord as [Hk Hord]. apply Nat.leb_le in Hk.
    assert (H := IH k' p Hord ltac:(lia)).
    unfold occurrences in *. cbn [filter] in *.
    destruct (category_eqb p k) eqn:E; [apply Nat.eqb_eq in E; lia | exact H].
Qed.

Lemma singletons_once_cons (p : category) (ks : list category) :
  singletons_once ks = true ->
  (singleton p = true -> occurrences p ks = 0) ->
  singletons_once (p :: ks) = true.
Proof.
  unfold singletons_once, occurrences. rewrite !andb_true_iff, !Nat.leb_le.
  intros [[H1 H2] H3] Hp. destruct p; cbn in *; try specialize (Hp eq_refl); lia.
Qed.

(** After a call of kind [p] that stored a non-empty value, a chain of
    non-empty values that runs through goes up from [p] and repeats no
    single-value kind. *)
Lemma chain_valid (fs : list call) :
  forall (p : category) (c c' : Cache.t),
    chain fs c = (Return tt, c') ->
    all_truthy fs = true ->
    top c = S (index p) ->
    nondecreasing (p :: map fst fs) = true
    /\ singletons_once (p :: map fst fs) = true.
Proof.
  induction fs as [|[k v] fs IH]; intros p c c' H Ht Htop.
  - split; [reflexivity | destruct p; reflexivity].
  - rewrite chain_cons in H.
    destruct (method (k, v) c) as [[[]|e] c1] eqn:Hm; [|discriminate].
    cbn in Ht. apply andb_true_iff in Ht. destruct Ht as [Hv Ht].
    apply method_return in Hm. destruct Hm as [Hdup [Hle [Hel ->]]].
    assert (Htop1 : top (store (k, v) c) = S (index k))
      by (apply top_store_eq; [exact Hv | exact Hle]).
    destruct (IH k _ c' H Ht Htop1) as [Hord Honce].
    assert (Hpk : index p <= index k) by lia.
    change (map fst ((k, v) :: fs)) with (k :: map fst fs).
    split.
    + change ((index p <=? index k)%nat && nondecreasing (k :: map fst fs) = true).
      rewrite Hord, andb_true_r. now apply Nat.leb_le.
    + apply singletons_once_cons; [exact Honce|].
      intros Hs. apply occurrences_below; [exact Hord|].
      destruct (Nat.eq_dec (index p) (index k)) as [E|E]; [|lia].
      apply index_inj in E. subst k.
      rewrite Hs, (top_present p c Htop) in Hdup. discriminate.
Qed.

Lemma last_cons (l : list category) :
  forall k p : category, last (k :: l) p = last l k.
Proof.
  induction l as [|a l IH]; intros k p; [reflexivity|].
  change (last (k :: a :: l) p) with (last (a :: l) p).
  rewrite (IH a p), (IH a k). reflexivity.
Qed.

(** With non-empty values the highest kind present is the kind of the last
    call. *)
Lemma chain_top (fs : list call) :
  forall (p : category) (c c' : Cache.t),
    chain fs c = (Return tt, c') ->
    all_truthy fs = true ->
    top c = S (index p) ->
    top c' = S (index (last (map fst fs) p)).
Proof.
  induction fs as [|[k v] fs IH]; intros p c c' H Ht Htop.
  - inversion H; subst. exact Htop.
  - rewrite chain_cons in H.
    destruct (method (k, v) c) as [[[]|e] c1] eqn:Hm; [|discriminate].
    cbn in Ht. apply andb_true_iff in Ht. destruct Ht as [Hv Ht].
    apply method_return in Hm. destruct Hm as [_ [Hle [_ ->]]].
    change (map fst ((k, v) :: fs)) with (k :: map fst fs).
    rewrite last_cons. apply (IH k _ c' H Ht).
    apply top_store_eq; assumption.
Qed.

(** X3: when every call hands in a non-empty value, the builder accepts a
    sequence of calls (the facade call and every chained call return)
    exactly when the category indexes never go down along it and no
    single-value kind (element, id, pseudo-element) is called twice. *)
Theorem accepted_iff_valid (first : call) (rest : list call) :
  all_truthy (first :: rest) = true ->
  (exists c, build first rest = (Return tt, c))
  <-> nondecreasing (map fst (first :: rest)) = true
      /\ singletons_once (map fst (first :: rest)) = true.
Proof.
  intros Ht. destruct first as [p v].
  cbn in Ht. apply andb_true_iff in Ht. destruct Ht as [Hv Ht].
  split.
  - intros [c H]. unfold build in H.
    exact (chain_valid rest p _ c H Ht (top_factory_eq p v Hv)).
  - intros [Hord Honce]. unfold build.
    apply (chain_succeeds rest p); [apply top_factory | exact Hord | exact Honce].
Qed.

(** [id('a').class('b').class('c')] is accepted; [class('b').id('a')],
    whose indexes go down, is not. *)
Lemma accepted_iff_valid_witness :
  (exists c, build (CatId, "a") [(CatClass, "b"); (CatClass, "c")] = (Return tt, c))
  /\ ~ (exists c, build (CatClass, "b") [(CatId, "a")] = (Return tt, c)).
Proof.
  split.
  - apply (proj2 (accepted_iff_valid (CatId, "a") [(CatClass, "b"); (CatClass, "c")]
                    eq_refl)).
    split; reflexivity.
  - intros H.
    apply (proj1 (accepted_iff_valid (CatClass, "b") [(CatId, "a")] eq_refl)) in H.
    destruct H as [H _]. discriminate H.
Defined.

(** X4: in a selector built from non-empty values, a kind of fragment is
    present in the bag, as the guards test it, exactly when a call of that
    kind was made. *)
Theorem present_iff_called (first : call) (rest : list call) (c : Cache.t)
    (k : category) :
  build first rest = (Return tt, c) ->
  all_truthy (first :: rest) = true ->
  present k c = true <-> In k (map fst (first :: rest)).
Proof.
  unfold build. intros H Ht. destruct first as [p v].
  cbn in Ht. apply andb_true_iff in Ht. destruct Ht as [Hv Ht].
  rewrite (chain_present rest _ c k H Ht), (factory_present k p v Hv).
  rewrite <- existsb_kind. reflexivity.
Qed.

Lemma present_iff_called_witness :
  let c := snd (build (CatElement, "a") [(CatAttribute, "href")]) in
  present CatAttribute c = true /\ ~ In CatId [CatElement; CatAttribute].
Proof.
  set (c := snd (build (CatElement, "a") [(CatAttribute, "href")])).
  pose proof (present_iff_called (CatElement, "a") [(CatAttribute, "href")] c)
    as H.
  split.
  - apply (proj2 (H CatAttribute eq_refl eq_refl)). right. left. reflexivity.
  - intros Hin. apply (proj2 (H CatId eq_refl eq_refl)) in Hin. discriminate Hin.
Defined.

(** X5: on a selector built from non-empty values, what the next fragment
    call does is decided by the kinds called so far: it raises
    [DuplicateKindError] when it is of a single-value kind that was called
    before; else it raises [OrderError] when its category index is below
    that of the last call; else it stores its value and returns. *)
Theorem next_call_rule (first : call) (rest : list call) (c : Cache.t)
    (k : category) (v : string) :
  build first rest = (Return tt, c) ->
  all_truthy (first :: rest) = true ->
  method (k, v) c =
    if singleton k && existsb (category_eqb k) (map fst (first :: rest))
    then (Throw DuplicateKindError, c)
    else if (index k <? index (last (map fst rest) (fst first)))%nat
         then (Throw OrderError, c)
         else (Return tt, store (k, v) c).
Proof.
  intros H Ht. destruct first as [p v0]. unfold build in H.
  cbn in Ht. apply andb_true_iff in Ht. destruct Ht as [Hv Ht].
  pose proof (chain_present rest _ c k H Ht) as Hp.
  rewrite (factory_present k p v0 Hv) in Hp.
  pose proof (chain_top rest p _ c H Ht (top_factory_eq p v0 Hv)) as Htop.
  cbn [fst]. change (map fst ((p, v0) :: rest)) with (p :: map fst rest).
  cbn [existsb]. rewrite <- Hp, method_run, Htop.
  destruct (singleton k && present k c) eqn:Hd; [reflexivity|].
  change (S (index k) <? S (index (last (map fst rest) p)))%nat
    with (index k <? index (last (map fst rest) p))%nat.
  destruct (category_eqb k CatElement) eqn:He; [|now rewrite orb_false_r].
  apply Nat.eqb_eq in He. apply (index_inj k CatElement) in He. subst k.
  rewrite orb_true_r.
  assert (Hl : present (last (map fst rest) p) c = true)
    by (apply top_present; exact Htop).
  cbn in Hd.
  destruct (last (map fst rest) p); cbn in *; try reflexivity. congruence.
Qed.

(** After [id('main').class('a').attr('href')]: a second id is a duplicate,
    a class comes too late, a pseudo-class is taken in. *)
Lemma next_call_rule_witness :
  let c := snd (build (CatId, "main") [(CatClass, "a"); (CatAttribute, "href")]) in
  method (CatId, "x") c = (Throw DuplicateKindError, c)
  /\ method (CatClass, "x") c = (Throw OrderError, c)
  /\ method (CatPseudoClass, "hover") c = (Return tt, store (CatPseudoClass, "hover") c).
Proof.
  set (c := snd (build (CatId, "main") [(CatClass, "a"); (CatAttribute, "href")])).
  pose proof (fun k v => next_call_rule (CatId, "main")
                [(CatClass, "a"); (CatAttribute, "href")] c k v eq_refl eq_refl) as H.
  split; [|split].
  - exact (H CatId "x").
  - exact (H CatClass "x").
  - exact (H CatPseudoClass "hover").
Defined.

(* ===================================================================== *)
(** ** Further properties: refusals *)

(** The guards do not look at the value handed in. *)
Lemma refusal_any_value (k : category) (v v' : string) (c : Cache.t) (e : exn) :
  method (k, v) c = (Throw e, c) -> method (k, v') c = (Throw e, c).
Proof.
  rewrite !method_run.
  destruct (singleton k && present k c); [trivial|].
  destruct ((S (index k) <? top c)%nat || category_eqb k CatElement);
    [trivial | discriminate].
Qed.

(** A call that returns takes no fragment out of the bag. *)
Lemma present_kept (k k1 : category) (v1 : string) (c : Cache.t) :
  singleton k1 && present k1 c = false ->
  present k c = true -> present k (store (k1, v1) c) = true.
Proof.
  destruct c as [e i cl at_ pc pe].
  destruct k1, k; cbn; rewrite ?has_length_app; intros H1 H2;
    try reflexivity; try assumption; congruence.
Qed.

Lemma present_other (k k1 : category) (v1 : string) (c : Cache.t) :
  k <> k1 -> present k (store (k1, v1) c) = present k c.
Proof.
  destruct c as [e i cl at_ pc pe].
  destruct k1, k; cbn; intros H; try reflexivity; congruence.
Qed.

Lemma top_kept (k1 : category) (v1 : string) (c : Cache.t) :
  singleton k1 && present k1 c = false -> top c <= top (store (k1, v1) c).
Proof.
  intros H.
  assert (Hp : forall k, present k c = true -> present k (store (k1, v1) c) = true)
    by (intros k; apply present_kept; exact H).
  destruct (Nat.eq_dec (top c) 0) as [E|E]; [lia|].
  destruct (top_reached c) as [k [Hk Ht]]; [lia|].
  apply Hp, present_below_top in Hk. lia.
Qed.

Lemma refusal_step (k k1 : category) (v v' v1 : string) (c c1 : Cache.t) (e : exn) :
  method (k, v) c = (Throw e, c) ->
  method (k1, v1) c = (Return tt, c1) ->
  method (k, v') c1 = (Throw e, c1).
Proof.
  intros Hr Hs. apply method_return in Hs. destruct Hs as [Hdup1 [Hle1 [Hel1 ->]]].
  assert (Hne : k <> k1).
  { intros ->. rewrite method_run, Hdup1 in Hr.
    assert (E1 : (S (index k1) <? top c)%nat = false) by (apply Nat.ltb_ge; lia).
    assert (E2 : category_eqb k1 CatElement = false)
      by (destruct k1; try reflexivity; congruence).
    rewrite E1, E2 in Hr. discriminate. }
  rewrite method_run in Hr. rewrite method_run.
  rewrite (present_other k k1 v1 c Hne).
  pose proof (top_kept k1 v1 c Hdup1) as Hmono.
  destruct (singleton k && present k c).
  - inversion Hr. reflexivity.
  - destruct ((S (index k) <? top c)%nat || category_eqb k CatElement) eqn:E;
      [|discriminate].
    inversion Hr. subst e.
    assert (E' : (S (index k) <? top (store (k1, v1) c))%nat
                 || category_eqb k CatElement = true).
    { apply orb_true_iff in E. apply orb_true_iff.
      destruct E as [E|E]; [left | now right].
      apply Nat.ltb_lt in E. apply Nat.ltb_lt. lia. }
    rewrite E'. reflexivity.
Qed.

Lemma refusal_chain (fs : list call) :
  forall (k : category) (v v' : string) (c c' : Cache.t) (e : exn),
    method (k, v) c = (Throw e, c) ->
    chain fs c = (Return tt, c') ->
    method (k, v') c' = (Throw e, c').
Proof.
  induction fs as [|[k1 v1] fs IH]; intros k v v' c c' e Hr H.
  - inversion H; subst. exact (refusal_any_value k v v' c' e Hr).
  - rewrite chain_cons in H.
    destruct (method (k1, v1) c) as [[[]|e1] c1] eqn:Hm; [|discriminate].
    apply (IH k v v' c1 c' e); [|exact H].
    exact (refusal_step k k1 v v v1 c c1 e Hr Hm).
Qed.

(** X6: a refusal is for good.  Once a selector has refused a kind of
    fragment, it refuses that kind, with the same error and whatever the
    value, after any further calls that returned. *)
Theorem refusal_is_permanent (k : category) (v v' : string) (fs : list call)
    (c c' : Cache.t) (e : exn) :
  fst (method (k, v) c) = Throw e ->
  chain fs c = (Return tt, c') ->
  method (k, v') c' = (Throw e, c').
Proof.
  intros Hr H. destruct (method (k, v) c) as [r c0] eqn:Hm. cbn in Hr. subst r.
  destruct (method_throw (k, v) c c0 e Hm) as [-> _].
  exact (refusal_chain fs k v v' c c' e Hm H).
Qed.

(** [element('a').attr('href')] refuses a class; after [.attr('title')] and
    [.pseudoClass('hover')] it still does. *)
Lemma refusal_is_permanent_witness :
  let c := snd (build (CatElement, "a")
                  [(CatAttribute, "href"); (CatAttribute, "title");
                   (CatPseudoClass, "hover")]) in
  method (CatClass, "late") c = (Throw OrderError, c).
Proof.
  exact (refusal_is_permanent CatClass "b" "late"
           [(CatAttribute, "title"); (CatPseudoClass, "hover")]
           (snd (build (CatElement, "a") [(CatAttribute, "href")])) _ OrderError
           eq_refl eq_refl).
Defined.

(** X7: a chain of calls that ends in an error has stopped at one of its
    calls: the calls before it returned, that call raised the error, and
    the selector is as those calls before left it. *)
Theorem failed_chain_stops_at_call (fs : list call) :
  forall (c c' : Cache.t) (e : exn),
    chain fs c = (Throw e, c') ->
    exists before f after,
      fs = (before ++ f :: after)%list
      /\ chain before c = (Return tt, c')
      /\ method f c' = (Throw e, c').
Proof.
  induction fs as [|f fs IH]; intros c c' e H.
  - discriminate.
  - rewrite chain_cons in H.
    destruct (method f c) as [[[]|e1] c1] eqn:Hm.
    + destruct (IH c1 c' e H) as [before [g [after [-> [Hb Hg]]]]].
      exists (f :: before), g, after. split; [reflexivity|].
      split; [|exact Hg]. rewrite chain_cons, Hm. exact Hb.
    + inversion H; subst. destruct (method_throw f c c' e Hm) as [-> _].
      exists [], f, fs. repeat split. exact Hm.
Qed.

Lemma failed_chain_stops_at_call_witness :
  exists before f after,
    [(CatAttribute, "href"); (CatClass, "b"); (CatPseudoClass, "hover")]
      = (before ++ f :: after)%list
    /\ chain before (cssSelectorBuilder.element "a")
       = (Return tt, snd (build (CatElement, "a") [(CatAttribute, "href")]))
    /\ method f (snd (build (CatElement, "a") [(CatAttribute, "href")]))
       = (Throw OrderError, snd (build (CatElement, "a") [(CatAttribute, "href")])).
Proof.
  exact (failed_chain_stops_at_call
           [(CatAttribute, "href"); (CatClass, "b"); (CatPseudoClass, "hover")]
           (cssSelectorBuilder.element "a") _ OrderError eq_refl).
Defined.



(** X9: values are written as they are, nothing in them is escaped: a
    class name with a dot in it reads, in the text, like two class names,
    though the selector that holds it is another one. *)
Theorem values_not_escaped (a b : string) (c c1 : Cache.t) :
  method (CatClass, a ++ "." ++ b) c = (Return tt, c1) ->
  exists c2,
    chain [(CatClass, a); (CatClass, b)] c = (Return tt, c2)
    /\ c1 <> c2
    /\ fst (Selector.stringify c1) = fst (Selector.stringify c2).
Proof.
  intros H.
  assert (Ha : exists ca, method (CatClass, a) c = (Return tt, ca)).
  { rewrite method_run in *.
    destruct (singleton CatClass && present CatClass c); [discriminate|].
    destruct ((S (index CatClass) <? top c)%nat || category_eqb CatClass CatElement);
      [discriminate | eexists; reflexivity]. }
  destruct Ha as [ca Ha].
  assert (Hb : exists c2, method (CatClass, b) ca = (Return tt, c2)).
  { pose proof Ha as Ha'. apply method_return in Ha'. destruct Ha' as [_ [Hle [_ ->]]].
    pose proof (top_store CatClass a c) as Ht.
    rewrite method_run.
    assert (E : (S (index CatClass) <? top (store (CatClass, a) c))%nat = false)
      by (apply Nat.ltb_ge; lia).
    rewrite E. cbn. eexists; reflexivity. }
  destruct Hb as [c2 Hb].
  exists c2. split; [|split].
  - rewrite chain_cons, Ha, chain_cons, Hb. reflexivity.
  - apply method_return in H, Ha, Hb.
    destruct H as [_ [_ [_ ->]]], Ha as [_ [_ [_ ->]]], Hb as [_ [_ [_ ->]]].
    intros E. apply (f_equal (fun x => List.length (Cache.className x))) in E.
    cbn in E. rewrite !length_app in E. cbn in E. lia.
  - destruct (stringify_returns (Simple c)) as [s Hs]. cbn [stringify] in Hs.
    destruct (Selector.stringify c) as [r c0] eqn:Hc. inversion Hs; subst.
    rewrite (method_text _ _ _ _ _ H Hc).
    rewrite (method_text _ _ _ _ _ Hb (method_text _ _ _ _ _ Ha Hc)).
    cbn [fst fragment]. f_equal. rewrite !append_assoc. reflexivity.
Qed.

(** [div.a.b] from one class call and from two. *)
Lemma values_not_escaped_witness :
  exists c2,
    chain [(CatClass, "a"); (CatClass, "b")] (cssSelectorBuilder.element "div")
      = (Return tt, c2)
    /\ store (CatClass, "a.b") (cssSelectorBuilder.element "div") <> c2
    /\ fst (Selector.stringify (store (CatClass, "a.b") (cssSelectorBuilder.element "div")))
       = fst (Selector.stringify c2).
Proof.
  exact (values_not_escaped "a" "b" (cssSelectorBuilder.element "div") _ eq_refl).
Defined.

(** X10: the selector that holds nothing is the only one whose text is the
    empty string. *)
Theorem empty_text_iff_empty (c : Cache.t) :
  Selector.stringify c = (Return "", c) <-> c = Cache.empty.
Proof.
  split; [|intros ->; reflexivity].
  rewrite stringify_bag. intros H. inversion H as [Ht]. clear H.
  destruct c as [e i cl at_ pc pe]. cbn in Ht.
  destruct e; [|discriminate]. destruct i; [|discriminate].
  destruct cl as [|x cl]; [|rewrite map_cons, join_cons in Ht; discriminate].
  destruct at_ as [|x at_]; [|rewrite map_cons, join_cons in Ht; discriminate].
  destruct pc as [|x pc]; [|rewrite map_cons, join_cons in Ht; discriminate].
  destruct pe; [reflexivity | discriminate].
Qed.

(* ===================================================================== *)
(** ** Further properties: the text of a tree *)

Lemma join_space_app (l1 l2 : list string) :
  l1 <> [] -> l2 <> [] ->
  String.concat " " (l1 ++ l2) = String.concat " " l1 ++ " " ++ String.concat " " l2.
Proof.
  intros H1 H2. induction l1 as [|x l1 IH]; [congruence|].
  destruct l1 as [|y l1].
  - destruct l2 as [|z l2]; [congruence | reflexivity].
  - change (String.concat " " (x :: ((y :: l1) ++ l2)%list)
            = (x ++ " " ++ String.concat " " (y :: l1)) ++ " " ++ String.concat " " l2).
    change (String.concat " " (x :: ((y :: l1) ++ l2)%list))
      with (x ++ " " ++ String.concat " " ((y :: l1) ++ l2)%list).
    rewrite IH by discriminate. rewrite !append_assoc. reflexivity.
Qed.

Lemma tokens_nonempty (n : node) : tokens n <> [].
Proof.
  destruct n; cbn; [discriminate|].
  intros H; apply app_eq_nil in H; destruct H; discriminate.
Qed.

Lemma text_combine (n1 n2 : node) (k : string) :
  text (CombineSelector n1 k n2) = text n1 ++ " " ++ k ++ " " ++ text n2.
Proof.
  unfold text. cbn [stringify].
  destruct (stringify_returns n1) as [s1 H1].
  destruct (stringify_returns n2) as [s2 H2].
  rewrite H1, H2. reflexivity.
Qed.

Lemma text_tokens (n : node) : text n = String.concat " " (tokens n).
Proof.
  induction n as [c | n1 IH1 k n2 IH2]; [reflexivity|].
  rewrite text_combine. cbn [tokens].
  rewrite join_space_app by (try apply tokens_nonempty; discriminate).
  rewrite IH1, IH2.
  destruct (tokens n2) as [|t ts] eqn:E; [now apply tokens_nonempty in E|].
  reflexivity.
Qed.

(** X11: the text of a tree of combined selectors is flat: it is the texts
    of its simple selectors and its combinators, as they stand in the tree
    from left to right, with one space between neighbours. *)
Theorem stringify_tokens (n : node) :
  stringify n = (Return (String.concat " " (tokens n)), n).
Proof.
  destruct (stringify_returns n) as [s H]. rewrite H. f_equal. f_equal.
  rewrite <- text_tokens. unfold text. rewrite H. reflexivity.
Qed.

(** X12: the text does not show how [combine] calls were nested: three
    nodes combined with two combinators give the same text whether the
    first two or the last two were combined first. *)
Theorem combine_reassociates (a b d : node) (k1 k2 : string) :
  fst (stringify (cssSelectorBuilder.combine (cssSelectorBuilder.combine a k1 b) k2 d))
  = fst (stringify (cssSelectorBuilder.combine a k1 (cssSelectorBuilder.combine b k2 d))).
Proof.
  unfold cssSelectorBuilder.combine. cbn [stringify].
  destruct (stringify_returns a) as [sa Ha].
  destruct (stringify_returns b) as [sb Hb].
  destruct (stringify_returns d) as [sd Hd].
  rewrite Ha, Hb, Hd. cbn [fst]. f_equal. rewrite !append_assoc. reflexivity.
Qed.

(* ===================================================================== *)
(** ** Further properties: the area of a rectangle *)

Lemma SFmul_comm (prec emax : Z) (x y : SpecFloat.spec_float) :
  SpecFloat.SFmul prec emax x y = SpecFloat.SFmul prec emax y x.
Proof.
  destruct x as [sx|sx| |sx mx ex], y as [sy|sy| |sy my ey]; cbn;
    rewrite ?(xorb_comm sx sy), ?(Pos.mul_comm mx my), ?(Z.add_comm ex ey);
    reflexivity.
Qed.

(** X13: the area does not depend on which side is handed in as the width:
    a rectangle and the rectangle with its sides swapped have the same
    [getArea()], for all numbers, infinities and NaN included. *)
Theorem area_symmetric (w h : float) :
  RectangleTask.getArea (RectangleTask.Rectangle w h)
  = RectangleTask.getArea (RectangleTask.Rectangle h w).
Proof.
  unfold RectangleTask.getArea. cbn. apply Prim2SF_inj.
  rewrite !mul_spec. apply SFmul_comm.
Qed.

(** X14: [getArea()] raises nothing on a side that is not a number: when
    either side is NaN the area is NaN. *)
Theorem area_nan (x : float) :
  RectangleTask.getArea (RectangleTask.Rectangle nan x) = nan
  /\ RectangleTask.getArea (RectangleTask.Rectangle x nan) = nan.
Proof.
  unfold RectangleTask.getArea. cbn. split; apply Prim2SF_inj; rewrite mul_spec.
  - reflexivity.
  - change (Prim2SF nan) with SpecFloat.S754_nan. destruct (Prim2SF x); reflexivity.
Qed.


(* ===================================================================== *)
(** ** A second id, a second pseudo-element *)

Lemma truthy_nonempty (s : string) : truthy s = true <-> s <> "".
Proof. destruct s; cbn; split; intros H; congruence. Qed.

(** Calls that return take no fragment out of the selector. *)
Lemma chain_present_kept (fs : list call) :
  forall (c c' : Cache.t) (k : category),
    chain fs c = (Return tt, c') ->
    present k c = true -> present k c' = true.
Proof.
  induction fs as [|[k1 v1] fs IH]; intros c c' k H Hp.
  - inversion H; subst. exact Hp.
  - rewrite chain_cons in H.
    destruct (method (k1, v1) c) as [[[]|e] c1] eqn:Hm; [|discriminate].
    apply (IH c1 c' k H).
    apply method_return in Hm. destruct Hm as [Hdup [_ [_ ->]]].
    apply present_kept; assumption.
Qed.

(** A call that returned with a non-empty value shows in the selector
    after the calls that followed it. *)
Lemma chain_present_called (fs : list call) :
  forall (c c' : Cache.t) (k : category) (v0 : string),
    chain fs c = (Return tt, c') ->
    In (k, v0) fs -> truthy v0 = true ->
    present k c' = true.
Proof.
  induction fs as [|[k1 v1] fs IH]; intros c c' k v0 H Hin Hv; [destruct Hin|].
  rewrite chain_cons in H.
  destruct (method (k1, v1) c) as [[[]|e] c1] eqn:Hm; [|discriminate].
  destruct Hin as [E|Hin].
  - inversion E; subst k1 v1.
    apply (chain_present_kept fs c1 c' k H).
    rewrite (step_present k v0 c c1 k Hm Hv).
    unfold category_eqb. rewrite Nat.eqb_refl. apply orb_true_r.
  - exact (IH c1 c' k v0 H Hin Hv).
Qed.

(** C4, as the code has it: for every selector and every value, [id]
    called when the id slot holds a non-empty string, and [pseudoElement]
    called when the pseudo-element slot holds a non-empty string, raise
    [DuplicateKindError] and leave the selector as it was, whatever the
    other slots hold and whatever the value given.  So does a second [id]
    or [pseudoElement] call on a selector built by calls of which one, of
    that kind, handed in a non-empty value, whatever the other calls
    were. *)
Theorem duplicate_after_nonempty (v : string) (c : Cache.t) :
  (c.(Cache.id) <> "" -> Selector.id v c = (Throw DuplicateKindError, c))
  /\ (c.(Cache.pseudoElement) <> "" ->
      Selector.pseudoElement v c = (Throw DuplicateKindError, c))
  /\ (forall (first : call) (rest : list call) (k : category) (v0 : string),
        k = CatId \/ k = CatPseudoElement ->
        build first rest = (Return tt, c) ->
        In (k, v0) (first :: rest) ->
        v0 <> "" ->
        method (k, v) c = (Throw DuplicateKindError, c)).
Proof.
  split; [|split].
  - intros H. apply truthy_nonempty in H.
    exact (duplicate_guard CatId v c (or_introl eq_refl) H).
  - intros H. apply truthy_nonempty in H.
    exact (duplicate_guard CatPseudoElement v c (or_intror eq_refl) H).
  - intros first rest k v0 Hk Hb Hin Hv. apply truthy_nonempty in Hv.
    apply duplicate_guard; [exact Hk|].
    unfold build in Hb. destruct Hin as [E|Hin].
    + subst first. apply (chain_present_kept rest _ c k Hb).
      rewrite (factory_present k k v0 Hv). apply Nat.eqb_refl.
    + exact (chain_present_called rest _ c k v0 Hb Hin Hv).
Qed.

(** [id('a').id('b')] raises [DuplicateKindError]; so does a second
    pseudo-element after [element('p').pseudoElement('after')], and a
    second id after [id('a').class('c').attr('href')]. *)
Lemma duplicate_after_nonempty_witness :
  build (CatId, "a") [(CatId, "b")]
    = (Throw DuplicateKindError, cssSelectorBuilder.id "a")
  /\ (let c := snd (build (CatElement, "p") [(CatPseudoElement, "after")]) in
      Selector.pseudoElement "before" c = (Throw DuplicateKindError, c))
  /\ (let c := snd (build (CatId, "a") [(CatClass, "c"); (CatAttribute, "href")]) in
      method (CatId, "b") c = (Throw DuplicateKindError, c)).
Proof.
  split; [|split].
  - apply (proj1 (duplicate_after_nonempty "b" (cssSelectorBuilder.id "a"))).
    discriminate.
  - apply (proj1 (proj2 (duplicate_after_nonempty "before"
             (snd (build (CatElement, "p") [(CatPseudoElement, "after")]))))).
    discriminate.
  - apply (proj2 (proj2 (duplicate_after_nonempty "b"
             (snd (build (CatId, "a") [(CatClass, "c"); (CatAttribute, "href")]))))
             (CatId, "a") [(CatClass, "c"); (CatAttribute, "href")] CatId "a").
    + left. reflexivity.
    + reflexivity.
    + left. reflexivity.
    + discriminate.
Defined.

(** C4 as it is stated fails where the first value is the empty string:
    [id('').id('b')] and [pseudoElement('').pseudoElement('after')] are
    second calls for a single-value slot, and both return, with the slot
    overwritten; no [DuplicateKindError] is raised. *)
Lemma duplicate_guard_counterexample :
  build (CatId, "") [(CatId, "b")] = (Return tt, cssSelectorBuilder.id "b")
  /\ fst (build (CatId, "") [(CatId, "b")]) <> Throw DuplicateKindError
  /\ build (CatPseudoElement, "") [(CatPseudoElement, "after")]
     = (Return tt, cssSelectorBuilder.pseudoElement "after")
  /\ fst (build (CatPseudoElement, "") [(CatPseudoElement, "after")])
     <> Throw DuplicateKindError.
Proof.
  repeat split; try reflexivity; discriminate.
Qed.
